(** * FieldEmbed: the negative-sampling training kernel

    A shallow embedding of [fieldembed/models/fieldembed_core.pyx] and the
    properties of its specification.

    Conventions of the embedding.
    - C integers are [Z]; where the source relies on a fixed width the
      wrap-around is written out ([wrap64], [to_int32]).
    - [REAL_t] (C [float]) is an abstract carrier with the operations the
      source applies to it ([RealOps]); the BLAS routines the module selects
      at start-up are an abstract back end ([Blas]).  Theorems stated for
      every carrier and every back end hold bit for bit, whatever the
      rounding.  Two carriers are instantiated: exact rationals, to run
      the code on concrete inputs, and the real numbers, for the contents
      of the sigmoid tables.
    - A C array is a list; a matrix is the list of its rows, so that
      [&M[r * size]] is row [r].  Reads and writes are checked: a result
      [None] means that the call does not complete normally (an access
      outside an array, or a Python exception).                            *)

From Stdlib Require Import ZArith QArith Reals Lia Lra.
From stdpp Require Import base list option gmap.

Local Open Scope Z_scope.

(** ** Arrays with C indices *)

(** [a[i]] for a C index: [None] outside the array. *)
Definition zlookup {A} (l : list A) (i : Z) : option A :=
  if decide (0 <= i) then l !! Z.to_nat i else None.

(** [a[i] = v]: [None] outside the array. *)
Definition zstore {A} (l : list A) (i : Z) (v : A) : option (list A) :=
  if decide (0 <= i < Z.of_nat (length l)) then Some (<[Z.to_nat i := v]> l)
  else None.

(** [range(a, b)] *)
Definition range (a b : Z) : list Z := seqZ a (b - a).

(** A [for] loop whose body may fail. *)
Fixpoint for_each {A S} (l : list A) (body : A -> S -> option S) (s : S)
  : option S :=
  match l with
  | [] => Some s
  | x :: l' => s' ← body x s; for_each l' body s'
  end.

(** Fixed-width conversions. *)
Definition wrap64 (z : Z) : Z := z mod 2 ^ 64.
Definition to_uint32 (z : Z) : Z := z mod 2 ^ 32.
Definition to_int32 (z : Z) : Z := (z + 2 ^ 31) mod 2 ^ 32 - 2 ^ 31.

(** ** Compile-time constants *)

Definition MAX_SENTENCE_LEN : Z := 10000.
Definition EXP_TABLE_SIZE : Z := 1000.
Definition MAX_EXP : Z := 6.

(** ** Utilities: [bisect_left], [random_int32] *)

(** The [while hi > lo] loop of [bisect_left]; [hi - lo] shrinks at every
    turn, so [fuel = hi - lo] turns are enough ([bisect_loop_fuel]). *)
Fixpoint bisect_loop (fuel : nat) (a : list Z) (x lo hi : Z) : option Z :=
  if decide (hi > lo) then
    match fuel with
    | O => None
    | S fuel' =>
        let mid := Z.shiftr (wrap64 (lo + hi)) 1 in
        a_mid ← zlookup a mid;
        if decide (a_mid >= x) then bisect_loop fuel' a x lo mid
        else bisect_loop fuel' a x (wrap64 (mid + 1)) hi
    end
  else Some lo.

Definition bisect_left (a : list Z) (x lo hi : Z) : option Z :=
  bisect_loop (Z.to_nat (hi - lo)) a x lo hi.

(** The precondition of [bisect_left]: the table does not decrease. *)
Definition sorted (a : list Z) : Prop :=
  forall i j x y, zlookup a i = Some x -> zlookup a j = Some y -> i <= j -> x <= y.

Fixpoint sortedb (a : list Z) : bool :=
  match a with
  | x :: (y :: _) as t => bool_decide (x <= y) && sortedb t
  | _ => true
  end.

(** One step of the generator, as both [random_int32] and the kernels
    write it. *)
Definition advance (next_random : Z) : Z :=
  Z.land (wrap64 (next_random * 25214903917 + 11)) 281474976710655.

(** [random_int32(&next_random)]: the value returned and the new state. *)
Definition random_int32 (next_random : Z) : Z * Z :=
  let this_random := Z.shiftr next_random 16 in
  (this_random, advance next_random).



(** ** The carrier of [REAL_t] and the BLAS back end *)

(** The operations of C [float] that the module uses.  [fle x y] is
    [x <= y] and [flt x y] is [x < y]; [to_int] is the cast [<int>];
    [c_exp] and [c_log] are libm's [exp] and [log] followed by the cast
    back to [REAL_t]. *)
Class RealOps (REAL_t : Type) := {
  of_int : Z -> REAL_t;
  real_half : REAL_t;
  fadd : REAL_t -> REAL_t -> REAL_t;
  fsub : REAL_t -> REAL_t -> REAL_t;
  fmul : REAL_t -> REAL_t -> REAL_t;
  fdiv : REAL_t -> REAL_t -> REAL_t;
  fneg : REAL_t -> REAL_t;
  fle : REAL_t -> REAL_t -> bool;
  flt : REAL_t -> REAL_t -> bool;
  to_int : REAL_t -> Z;
  c_exp : REAL_t -> REAL_t;
  c_log : REAL_t -> REAL_t
}.

(** [our_dot], [our_saxpy] and [sscal], on vectors of [N] elements with
    unit stride; [our_saxpy N a X Y] and [sscal N a X] are the new contents
    of [Y] and of [X]. *)
Class Blas (REAL_t : Type) := {
  our_dot : Z -> list REAL_t -> list REAL_t -> REAL_t;
  our_saxpy : Z -> REAL_t -> list REAL_t -> list REAL_t -> list REAL_t;
  sscal : Z -> REAL_t -> list REAL_t -> list REAL_t
}.

Section NoBlas.
Context {REAL_t : Type} `{!RealOps REAL_t}.

(** [our_dot_noblas]: [a = 0.0; for i < N: a += X[i] * Y[i]] *)
Fixpoint dot_loop (n : nat) (X Y : list REAL_t) (a : REAL_t) : REAL_t :=
  match n, X, Y with
  | S n', x :: X', y :: Y' => dot_loop n' X' Y' (fadd a (fmul x y))
  | _, _, _ => a
  end.

Definition our_dot_noblas (N : Z) (X Y : list REAL_t) : REAL_t :=
  dot_loop (Z.to_nat N) X Y (of_int 0).

(** [our_saxpy_noblas]: [for i < N: Y[i] = alpha * X[i] + Y[i]] *)
Fixpoint saxpy_loop (n : nat) (a : REAL_t) (X Y : list REAL_t) : list REAL_t :=
  match n, X, Y with
  | S n', x :: X', y :: Y' => fadd (fmul a x) y :: saxpy_loop n' a X' Y'
  | _, _, _ => Y
  end.

Definition our_saxpy_noblas (N : Z) (a : REAL_t) (X Y : list REAL_t) :=
  saxpy_loop (Z.to_nat N) a X Y.

(** [sscal]: [for i < N: X[i] = alpha * X[i]] *)
Fixpoint sscal_loop (n : nat) (a : REAL_t) (X : list REAL_t) : list REAL_t :=
  match n, X with
  | S n', x :: X' => fmul a x :: sscal_loop n' a X'
  | _, _ => X
  end.

Definition sscal_ref (N : Z) (a : REAL_t) (X : list REAL_t) :=
  sscal_loop (Z.to_nat N) a X.

(** The back end [init] selects when no BLAS is usable. *)
Definition noblas : Blas REAL_t :=
  {| our_dot := our_dot_noblas; our_saxpy := our_saxpy_noblas;
     sscal := sscal_ref |}.
End NoBlas.

(** ** The sigmoid tables *)

Section Tables.
Context {REAL_t : Type} `{!RealOps REAL_t}.

Definition ONEF : REAL_t := of_int 1.

(** The two assignments to [EXP_TABLE[i]] in [init]. *)
Definition exp_entry (i : Z) : REAL_t :=
  let e :=
    c_exp (fmul (fsub (fmul (fdiv (of_int i) (of_int EXP_TABLE_SIZE))
                            (of_int 2)) (of_int 1)) (of_int MAX_EXP)) in
  fdiv e (fadd e (of_int 1)).

Definition log_entry (i : Z) : REAL_t := c_log (exp_entry i).

(** [init]: the tables [EXP_TABLE] and [LOG_TABLE]. *)
Definition init : list REAL_t * list REAL_t :=
  (exp_entry <$> range 0 EXP_TABLE_SIZE, log_entry <$> range 0 EXP_TABLE_SIZE).

(** [<int>((f_dot + MAX_EXP) * (EXP_TABLE_SIZE / MAX_EXP / 2))]; the
    quotient of the integer constants is the integer 83. *)
Definition table_index (f_dot : REAL_t) : Z :=
  to_int (fmul (fadd f_dot (of_int MAX_EXP))
               (of_int (EXP_TABLE_SIZE / MAX_EXP / 2))).

(** [f_dot <= -MAX_EXP or f_dot >= MAX_EXP] *)
Definition saturated (f_dot : REAL_t) : bool :=
  fle f_dot (of_int (- MAX_EXP)) || fle (of_int MAX_EXP) f_dot.
End Tables.

(** ** Configuration and memory *)

(** [Word2VecConfig] after [init_w2v_config]: the scalars, the read-only
    tables and the three fixed-capacity work arrays.  The maps are keyed by
    field index [fld_idx]. *)
Record Word2VecConfig (REAL_t : Type) := {
  c_sg : Z;
  c_negative : Z;
  c_sample : bool;
  c_cbow_mean : Z;
  c_window : Z;
  c_compute_loss : Z;
  c_use_sub : Z;
  c_use_head : Z;
  c_use_hyper : Z;
  c_LookUp_map : gmap Z (list Z);
  c_EndIdx_map : gmap Z (list Z);
  c_LengInv_map : gmap Z (list REAL_t);
  c_word_locks : list REAL_t;
  c_alpha : REAL_t;
  c_size : Z;
  c_cum_table : list Z;
  c_cum_table_len : Z;
  c_indexes : list Z;
  c_reduced_windows : list Z;
  c_sentence_idx : list Z;
  c_next_random : Z
}.
Arguments c_sg {_} _.
Arguments c_negative {_} _.
Arguments c_sample {_} _.
Arguments c_cbow_mean {_} _.
Arguments c_window {_} _.
Arguments c_compute_loss {_} _.
Arguments c_use_sub {_} _.
Arguments c_use_head {_} _.
Arguments c_use_hyper {_} _.
Arguments c_LookUp_map {_} _.
Arguments c_EndIdx_map {_} _.
Arguments c_LengInv_map {_} _.
Arguments c_word_locks {_} _.
Arguments c_alpha {_} _.
Arguments c_size {_} _.
Arguments c_cum_table {_} _.
Arguments c_cum_table_len {_} _.
Arguments c_indexes {_} _.
Arguments c_reduced_windows {_} _.
Arguments c_sentence_idx {_} _.
Arguments c_next_random {_} _.

(** What a training call mutates: the input matrices [syn0_map[fld_idx]],
    the output matrix [syn1neg], the scratch buffers [neu1] and [work] (one
    slice of [size] elements per field) and the running loss. *)
Record Mem (REAL_t : Type) := {
  syn0_map : gmap Z (list (list REAL_t));
  syn1neg : list (list REAL_t);
  neu1 : list (list REAL_t);
  work : list (list REAL_t);
  running_training_loss : REAL_t
}.
Arguments syn0_map {_} _.
Arguments syn1neg {_} _.
Arguments neu1 {_} _.
Arguments work {_} _.
Arguments running_training_loss {_} _.

Section Memory.
Context {REAL_t : Type}.
Implicit Type mem : Mem REAL_t.

Definition with_syn0 mem (fld : Z) (m : list (list REAL_t)) : Mem REAL_t :=
  {| syn0_map := <[fld := m]> (syn0_map mem); syn1neg := syn1neg mem;
     neu1 := neu1 mem; work := work mem;
     running_training_loss := running_training_loss mem |}.

Definition with_syn1neg mem (m : list (list REAL_t)) : Mem REAL_t :=
  {| syn0_map := syn0_map mem; syn1neg := m; neu1 := neu1 mem;
     work := work mem;
     running_training_loss := running_training_loss mem |}.

Definition with_neu1 mem (b : list (list REAL_t)) : Mem REAL_t :=
  {| syn0_map := syn0_map mem; syn1neg := syn1neg mem; neu1 := b;
     work := work mem;
     running_training_loss := running_training_loss mem |}.

Definition with_work mem (b : list (list REAL_t)) : Mem REAL_t :=
  {| syn0_map := syn0_map mem; syn1neg := syn1neg mem; neu1 := neu1 mem;
     work := b; running_training_loss := running_training_loss mem |}.

Definition with_loss mem (l : REAL_t) : Mem REAL_t :=
  {| syn0_map := syn0_map mem; syn1neg := syn1neg mem; neu1 := neu1 mem;
     work := work mem; running_training_loss := l |}.
End Memory.

(** ** The per-token update *)

(** How a field block of the loop over [d] ends: with [continue], or by
    falling through with the value it assigned. *)
Inductive outcome (A M : Type) :=
  | Continue (mem : M)
  | Proceed (a : A) (mem : M).
Arguments Continue {A M} mem.
Arguments Proceed {A M} a mem.

Section Kernel.
Context {REAL_t : Type} `{!RealOps REAL_t} `{!Blas REAL_t}.
Variables EXP_TABLE LOG_TABLE : list REAL_t.
Variable c : Word2VecConfig REAL_t.
Implicit Type mem : Mem REAL_t.

Definition proj_num : Z := c_use_head c + c_use_sub c.

(** [memset(buf, 0, proj_num * size * sizeof(REAL_t))] *)
Definition memset_zero (buf : list (list REAL_t)) : option (list (list REAL_t)) :=
  for_each (range 0 proj_num)
    (fun fld b => zstore b fld (replicate (Z.to_nat (c_size c)) (of_int 0))) buf.

(** The count of context positions and [inv_count]. *)
Definition count_context (i j k : Z) : REAL_t :=
  foldl (fun count m => if decide (m = i) then count else fadd count ONEF)
        (of_int 0) (range j k).

Definition inv_count_of (count : REAL_t) : REAL_t :=
  if flt real_half count then fdiv ONEF count else of_int 1.

(** The field index of the head field once the sub field, if any, has
    taken index 0. *)
Definition head_fld : Z := if decide (c_use_sub c <> 0) then 1 else 0.

(** [gs = EndIdx[left_word - 1]; ge = EndIdx[left_word]] *)
Definition slice_bounds (fld left_word : Z) : option (Z * Z) :=
  EndIdx ← c_EndIdx_map c !! fld;
  gs ← zlookup EndIdx (left_word - 1);
  ge ← zlookup EndIdx left_word;
  Some (to_int32 gs, to_int32 ge).

(** [y += a * x] on slice [fld] of [neu1], of [work], and on a row of
    [syn1neg] or of [syn0_map[fld]]. *)
Definition axpy_neu1 (fld : Z) (a : REAL_t) (x : list REAL_t) mem : option (Mem REAL_t) :=
  y ← zlookup (neu1 mem) fld;
  b ← zstore (neu1 mem) fld (our_saxpy (c_size c) a x y);
  Some (with_neu1 mem b).

Definition axpy_work (fld : Z) (a : REAL_t) (x : list REAL_t) mem : option (Mem REAL_t) :=
  y ← zlookup (work mem) fld;
  b ← zstore (work mem) fld (our_saxpy (c_size c) a x y);
  Some (with_work mem b).

Definition axpy_syn1neg (row : Z) (a : REAL_t) (x : list REAL_t) mem : option (Mem REAL_t) :=
  y ← zlookup (syn1neg mem) row;
  m ← zstore (syn1neg mem) row (our_saxpy (c_size c) a x y);
  Some (with_syn1neg mem m).

Definition axpy_syn0 (fld row : Z) (a : REAL_t) (x : list REAL_t) mem : option (Mem REAL_t) :=
  syn0 ← syn0_map mem !! fld;
  y ← zlookup syn0 row;
  m ← zstore syn0 row (our_saxpy (c_size c) a x y);
  Some (with_syn0 mem fld m).

Definition scale_neu1 (fld : Z) (a : REAL_t) mem : option (Mem REAL_t) :=
  x ← zlookup (neu1 mem) fld;
  b ← zstore (neu1 mem) fld (sscal (c_size c) a x);
  Some (with_neu1 mem b).

Definition scale_work (fld : Z) (a : REAL_t) mem : option (Mem REAL_t) :=
  x ← zlookup (work mem) fld;
  b ← zstore (work mem) fld (sscal (c_size c) a x);
  Some (with_work mem b).

(** Sub-field aggregation, the body for one context position [m]. *)
Definition project_sub_token (fld m : Z) mem : option (Mem REAL_t) :=
  w ← zlookup (c_indexes c) m;
  let left_word := to_int32 w in
  LengInv ← c_LengInv_map c !! fld;
  word_lenginv ← zlookup LengInv left_word;
  '(gs, ge) ← slice_bounds fld left_word;
  for_each (range gs ge)
    (fun n mem =>
       LookUp ← c_LookUp_map c !! fld;
       grain_index ← zlookup LookUp n;
       syn0 ← syn0_map mem !! fld;
       x ← zlookup syn0 grain_index;
       axpy_neu1 fld word_lenginv x mem) mem.

(** Head-field aggregation, the body for one context position [m]. *)
Definition project_head_token (fld m : Z) mem : option (Mem REAL_t) :=
  w ← zlookup (c_indexes c) m;
  syn0 ← syn0_map mem !! fld;
  x ← zlookup syn0 w;
  axpy_neu1 fld ONEF x mem.

(** [for m in range(j, k): if m == i: continue else: body] *)
Definition for_context {S} (i j k : Z) (body : Z -> S -> option S) (s : S) : option S :=
  for_each (range j k) (fun m s => if decide (m = i) then Some s else body m s) s.

(** The projections of the active fields into [neu1]. *)
Definition project (i j k : Z) (inv_count : REAL_t) mem : option (Mem REAL_t) :=
  b ← memset_zero (neu1 mem);
  let mem := with_neu1 mem b in
  mem ← (if decide (c_use_sub c <> 0) then
           mem ← for_context i j k (project_sub_token 0) mem;
           scale_neu1 0 inv_count mem
         else Some mem);
  if decide (c_use_head c <> 0) then
    mem ← for_context i j k (project_head_token head_fld) mem;
    scale_neu1 head_fld inv_count mem
  else Some mem.

(** The head of the loop over [d]: the target of this step and its label,
    or [None] for the [continue] on a negative sample equal to the word;
    together with the generator state after the draw. *)
Definition pick_target (word_index d next_random : Z)
  : option (Z * option (Z * REAL_t)) :=
  if decide (d = 0) then Some (next_random, Some (word_index, ONEF))
  else
    total ← zlookup (c_cum_table c) (c_cum_table_len c - 1);
    if decide (total = 0) then None else
    t ← bisect_left (c_cum_table c) (Z.shiftr next_random 16 mod total)
                    0 (c_cum_table_len c);
    let target_index := to_uint32 t in
    let next_random := advance next_random in
    if decide (target_index = word_index) then Some (next_random, None)
    else Some (next_random, Some (target_index, of_int 0)).

(** *** Variant [fieldembed_token_neg_0X1_neat] *)

(** From the saturation test to the accumulation into [work]. *)
Definition neat_gradient (fld : Z) (label : REAL_t) (row : list REAL_t)
    (f_dot : REAL_t) mem : option (outcome REAL_t (Mem REAL_t)) :=
  if saturated f_dot then Some (Continue mem)
  else
    f ← zlookup EXP_TABLE (table_index f_dot);
    let g := fmul (fsub label f) (c_alpha c) in
    mem ← axpy_work fld g row mem;
    Some (Proceed g mem).

(** One field block of the first phase. *)
Definition neat_field (fld d : Z) (label : REAL_t) (target_index : Z) mem
  : option (outcome REAL_t (Mem REAL_t)) :=
  x ← zlookup (neu1 mem) fld;
  row ← zlookup (syn1neg mem) target_index;
  let f_dot := our_dot (c_size c) x row in
  if decide (c_compute_loss c = 1) then
    let f_dot := if decide (d = 0) then f_dot else fneg f_dot in
    if saturated f_dot then Some (Continue mem)
    else
      log_e_f_dot ← zlookup LOG_TABLE (table_index f_dot);
      let mem := with_loss mem (fsub (running_training_loss mem) log_e_f_dot) in
      neat_gradient fld label row f_dot mem
  else neat_gradient fld label row f_dot mem.

(** The second phase: the output row moves along the projections. *)
Definition neat_update_syn1neg (target_index : Z) (g2 g : option REAL_t) mem
  : option (Mem REAL_t) :=
  mem ← (if decide (c_use_sub c <> 0) then
           a ← g2; x ← zlookup (neu1 mem) 0;
           axpy_syn1neg target_index a x mem
         else Some mem);
  if decide (c_use_head c <> 0) then
    a ← g; x ← zlookup (neu1 mem) head_fld;
    axpy_syn1neg target_index a x mem
  else Some mem.

(** The body of the loop over [d].  The locals [g2] and [g] are assigned in
    the first phase before the second phase reads them. *)
Definition neat_step (word_index d : Z) (st : Z * Mem REAL_t)
  : option (Z * Mem REAL_t) :=
  let '(next_random, mem) := st in
  '(next_random, tgt) ← pick_target word_index d next_random;
  match tgt with
  | None => Some (next_random, mem)
  | Some (target_index, label) =>
      o2 ← (if decide (c_use_sub c <> 0) then
              o ← neat_field 0 d label target_index mem;
              match o with
              | Continue mem => Some (Continue mem)
              | Proceed g2 mem => Some (Proceed (Some g2) mem)
              end
            else Some (Proceed None mem));
      match o2 with
      | Continue mem => Some (next_random, mem)
      | Proceed g2 mem =>
          o1 ← (if decide (c_use_head c <> 0) then
                  o ← neat_field head_fld d label target_index mem;
                  match o with
                  | Continue mem => Some (Continue mem)
                  | Proceed g mem => Some (Proceed (Some g) mem)
                  end
                else Some (Proceed None mem));
          match o1 with
          | Continue mem => Some (next_random, mem)
          | Proceed g mem =>
              mem ← neat_update_syn1neg target_index g2 g mem;
              Some (next_random, mem)
          end
      end
  end.

(** *** After the loop over [d]: scaling and scatter *)

(** Sub-field scatter, the body for one context position [m]. *)
Definition scatter_sub_token (fld m : Z) mem : option (Mem REAL_t) :=
  w ← zlookup (c_indexes c) m;
  let left_word := to_int32 w in
  LengInv ← c_LengInv_map c !! fld;
  word_lenginv ← zlookup LengInv left_word;
  '(gs, ge) ← slice_bounds fld left_word;
  for_each (range gs ge)
    (fun n mem =>
       LookUp ← c_LookUp_map c !! fld;
       grain_index ← zlookup LookUp n;
       x ← zlookup (work mem) fld;
       axpy_syn0 fld grain_index word_lenginv x mem) mem.

(** Head-field scatter, the body for one context position [m]. *)
Definition scatter_head_token (fld m : Z) mem : option (Mem REAL_t) :=
  w ← zlookup (c_indexes c) m;
  lock ← zlookup (c_word_locks c) w;
  x ← zlookup (work mem) fld;
  axpy_syn0 fld w lock x mem.

(** [if cbow_mean: ...] and the two scatter loops; [i] is the value the
    variable [i] has when the loops run. *)
Definition scatter (i j k : Z) (inv_count : REAL_t) mem : option (Mem REAL_t) :=
  mem ← (if decide (c_cbow_mean c <> 0) then
           mem ← (if decide (c_use_sub c <> 0) then scale_work 0 inv_count mem
                  else Some mem);
           if decide (c_use_head c <> 0) then scale_work head_fld inv_count mem
           else Some mem
         else Some mem);
  mem ← (if decide (c_use_sub c <> 0) then
           for_context i j k (scatter_sub_token 0) mem
         else Some mem);
  if decide (c_use_head c <> 0) then
    for_context i j k (scatter_head_token head_fld) mem
  else Some mem.

Definition fieldembed_token_neg_0X1_neat (i j k : Z) (next_random : Z) mem
  : option (Z * Mem REAL_t) :=
  word_index ← zlookup (c_indexes c) i;
  let inv_count := inv_count_of (count_context i j k) in
  mem ← project i j k inv_count mem;
  b ← memset_zero (work mem);
  let mem := with_work mem b in
  '(next_random, mem) ←
    for_each (range 0 (c_negative c + 1)) (neat_step word_index) (next_random, mem);
  mem ← scatter i j k inv_count mem;
  Some (next_random, mem).

(** *** Variant [fieldembed_negsamp] *)

(** The local array [g[proj_num]]: an element is [None] until it is
    assigned; reading it before is undefined. *)
Definition g_unset : list (option REAL_t) := replicate (Z.to_nat proj_num) None.

(** One field block of the first phase; it assigns [g[fld]]. *)
Definition negsamp_field (fld d : Z) (label : REAL_t) (target_index : Z)
    (g : list (option REAL_t)) mem
  : option (outcome (list (option REAL_t)) (Mem REAL_t)) :=
  x ← zlookup (neu1 mem) fld;
  row ← zlookup (syn1neg mem) target_index;
  let f_dot := our_dot (c_size c) x row in
  if saturated f_dot then Some (Continue mem)
  else
    f ← zlookup EXP_TABLE (table_index f_dot);
    let g_fld := fmul (fsub label f) (c_alpha c) in
    g ← zstore g fld (Some g_fld);
    mem ← (if decide (c_compute_loss c = 1) then
             let f_dot := if decide (d = 0) then f_dot else fneg f_dot in
             log_e_f_dot ← zlookup LOG_TABLE (table_index f_dot);
             Some (with_loss mem (fsub (running_training_loss mem) log_e_f_dot))
           else Some mem);
    mem ← axpy_work fld g_fld row mem;
    Some (Proceed g mem).

(** The state of the loop over [d]: the generator, the memory, the array
    [g], and the variable [i], which the loop over the sub fields uses as
    its counter. *)
Definition negsamp_state : Type := Z * Mem REAL_t * list (option REAL_t) * Z.

(** [for i in range(use_sub)]: a [continue] in the block goes on with the
    next [i]. *)
Definition negsamp_sub_fields (d : Z) (label : REAL_t) (target_index : Z)
    (s : Mem REAL_t * list (option REAL_t) * Z)
  : option (Mem REAL_t * list (option REAL_t) * Z) :=
  for_each (range 0 (c_use_sub c))
    (fun i' '(mem, g, _) =>
       o ← negsamp_field i' d label target_index g mem;
       match o with
       | Continue mem => Some (mem, g, i')
       | Proceed g mem => Some (mem, g, i')
       end) s.

Definition negsamp_update_syn1neg (target_index : Z)
    (g : list (option REAL_t)) mem : option (Mem REAL_t) :=
  mem ← (if decide (c_use_sub c <> 0) then
           a ← mjoin (zlookup g 0); x ← zlookup (neu1 mem) 0;
           axpy_syn1neg target_index a x mem
         else Some mem);
  if decide (c_use_head c <> 0) then
    a ← mjoin (zlookup g head_fld); x ← zlookup (neu1 mem) head_fld;
    axpy_syn1neg target_index a x mem
  else Some mem.

Definition negsamp_step (word_index d : Z) (st : negsamp_state)
  : option negsamp_state :=
  let '(next_random, mem, g, i) := st in
  '(next_random, tgt) ← pick_target word_index d next_random;
  match tgt with
  | None => Some (next_random, mem, g, i)
  | Some (target_index, label) =>
      '(mem, g, i) ← (if decide (c_use_sub c <> 0) then
                        negsamp_sub_fields d label target_index (mem, g, i)
                      else Some (mem, g, i));
      o ← (if decide (c_use_head c <> 0) then
             negsamp_field (Z.max 0 (c_use_sub c)) d label target_index g mem
           else Some (Proceed g mem));
      match o with
      | Continue mem => Some (next_random, mem, g, i)
      | Proceed g mem =>
          mem ← negsamp_update_syn1neg target_index g mem;
          Some (next_random, mem, g, i)
      end
  end.

Definition fieldembed_negsamp (i j k : Z) (next_random : Z) mem
  : option (Z * Mem REAL_t) :=
  word_index ← zlookup (c_indexes c) i;
  let inv_count := inv_count_of (count_context i j k) in
  mem ← project i j k inv_count mem;
  b ← memset_zero (work mem);
  let mem := with_work mem b in
  '(next_random, mem, _, i) ←
    for_each (range 0 (c_negative c + 1)) (negsamp_step word_index)
             (next_random, mem, g_unset, i);
  mem ← scatter i j k inv_count mem;
  Some (next_random, mem).
End Kernel.

(** ** The batch driver *)

(** [l[a:b]] on a Python sequence. *)
Definition py_slice {A} (l : list A) (a b : Z) : list A :=
  let n := Z.of_nat (length l) in
  let clamp x := if decide (x < 0) then Z.max 0 (x + n) else Z.min x n in
  take (Z.to_nat (clamp b - clamp a)) (drop (Z.to_nat (clamp a)) l).

(** [enumerate(l)] *)
Definition enumerate {A} (l : list A) : list (Z * A) :=
  zip (seqZ 0 (Z.of_nat (length l))) l.

(** The work arrays and counters that the first part of [train_batch]
    fills. *)
Record Packed := {
  p_indexes : list Z;
  p_sentence_idx : list Z;
  effective_words : Z;
  effective_sentences : Z;
  p_next_random : Z
}.

(** What the subsampling branch keeps true of the work arrays: the packed
    cells hold input tokens above 3, and the sentence ends recorded so far
    are positions of the packed prefix. *)
Definition packed_ok (indexes : list Z) (st : Packed) : Prop :=
  0 <= effective_words st /\ 0 <= effective_sentences st /\
  (forall pos, 0 <= pos < effective_words st ->
     exists w, zlookup (p_indexes st) pos = Some w /\ 3 < w /\ w ∈ indexes) /\
  (forall s, 0 <= s < effective_sentences st ->
     exists e, zlookup (p_sentence_idx st) s = Some e /\
               0 <= e <= effective_words st).

(** A call of the kernel at target position [i] with the window [j, k)
    stays between [lo] and [hi]. *)
Definition within (lo hi : Z) (call : Z * Z * Z) : Prop :=
  let '(i, j, k) := call in lo <= i < hi /\ lo <= j /\ k <= hi.

(** The log of calls only grows, by calls between [lo] and [hi]. *)
Definition grows_within (lo hi : Z) (log : list (Z * Z * Z))
    (st : Z * list (Z * Z * Z)) : Prop :=
  exists new, st.2 = log ++ new /\ Forall (within lo hi) new.

Section Driver.
Context {REAL_t : Type}.
Variable c : Word2VecConfig REAL_t.
(** [model.wv.vocab_values[w].sample_int] *)
Variable vlookup : list Z.
(** [model.random.randint(low, high, n)] *)
Variable randint : Z -> Z -> Z -> list Z.

(** Step 2 of the subsampling branch: the loop over the words of one
    sentence; it stops early on [break]. *)
Fixpoint pack_words (ws : list Z) (st : Packed) : option Packed :=
  match ws with
  | [] => Some st
  | word_vocidx :: ws' =>
      if decide (word_vocidx <= 3) then pack_words ws' st
      else
        '(dropped, next_random) ←
          (if c_sample c then
             sample_int ← zlookup vlookup word_vocidx;
             let '(r, next_random) := random_int32 (p_next_random st) in
             Some (bool_decide (sample_int < r), next_random)
           else Some (false, p_next_random st));
        let st := {| p_indexes := p_indexes st;
                     p_sentence_idx := p_sentence_idx st;
                     effective_words := effective_words st;
                     effective_sentences := effective_sentences st;
                     p_next_random := next_random |} in
        if dropped : bool then pack_words ws' st
        else
          idx ← zstore (p_indexes st) (effective_words st) word_vocidx;
          let st := {| p_indexes := idx;
                       p_sentence_idx := p_sentence_idx st;
                       effective_words := effective_words st + 1;
                       effective_sentences := effective_sentences st;
                       p_next_random := p_next_random st |} in
          if decide (effective_words st = MAX_SENTENCE_LEN) then Some st
          else pack_words ws' st
  end.

(** The subsampling branch: the loop over the sentences. *)
Fixpoint pack_sentences (indexes sentence_idx : list Z) (sent_ids : list Z)
    (st : Packed) : option Packed :=
  match sent_ids with
  | [] => Some st
  | sent_idx :: rest =>
      idx_start ← (if decide (sent_idx = 0) then Some 0
                   else zlookup sentence_idx (sent_idx - 1));
      idx_end ← zlookup sentence_idx sent_idx;
      st ← pack_words (py_slice indexes idx_start idx_end) st;
      sidx ← zstore (p_sentence_idx st) (effective_sentences st) (effective_words st);
      let st := {| p_indexes := p_indexes st;
                   p_sentence_idx := sidx;
                   effective_words := effective_words st;
                   effective_sentences := effective_sentences st + 1;
                   p_next_random := p_next_random st |} in
      if decide (effective_words st = MAX_SENTENCE_LEN) then Some st
      else pack_sentences indexes sentence_idx rest st
  end.

(** The other branch: both sequences are copied as they are. *)
Definition copy_verbatim (indexes sentence_idx : list Z) (st : Packed)
  : option Packed :=
  idx ← for_each (enumerate indexes)
        (fun '(i, item) b =>
           if decide (0 <= item < 2 ^ 32) then zstore b i item else None)
        (p_indexes st);
  sidx ← for_each (enumerate sentence_idx)
         (fun '(i, item) b => zstore b i item) (p_sentence_idx st);
  Some {| p_indexes := idx;
          p_sentence_idx := sidx;
          effective_words := Z.of_nat (length indexes);
          effective_sentences := Z.of_nat (length sentence_idx);
          p_next_random := p_next_random st |}.

Definition unpacked : Packed :=
  {| p_indexes := c_indexes c; p_sentence_idx := c_sentence_idx c;
     effective_words := 0; effective_sentences := 0;
     p_next_random := c_next_random c |}.

Definition prepare (indexes sentence_idx : list Z) (subsampling : bool)
  : option Packed :=
  if subsampling then
    pack_sentences indexes sentence_idx
      (range 0 (Z.of_nat (length sentence_idx))) unpacked
  else copy_verbatim indexes sentence_idx unpacked.

(** The configuration the kernel is called with. *)
Definition config_of (p : Packed) (rw : list Z) : Word2VecConfig REAL_t :=
  {| c_sg := c_sg c; c_negative := c_negative c; c_sample := c_sample c;
     c_cbow_mean := c_cbow_mean c; c_window := c_window c;
     c_compute_loss := c_compute_loss c; c_use_sub := c_use_sub c;
     c_use_head := c_use_head c; c_use_hyper := c_use_hyper c;
     c_LookUp_map := c_LookUp_map c; c_EndIdx_map := c_EndIdx_map c;
     c_LengInv_map := c_LengInv_map c; c_word_locks := c_word_locks c;
     c_alpha := c_alpha c; c_size := c_size c;
     c_cum_table := c_cum_table c; c_cum_table_len := c_cum_table_len c;
     c_indexes := p_indexes p; c_reduced_windows := rw;
     c_sentence_idx := p_sentence_idx p;
     c_next_random := p_next_random p |}.

(** The training loops.  The kernel is a parameter, and so is the type [M]
    of what it mutates. *)
Section Loops.
Context {M : Type}.
Variable kernel :
  Word2VecConfig REAL_t -> Z -> Z -> Z -> Z -> M -> option (Z * M).
Variable c' : Word2VecConfig REAL_t.

Definition call (i j k : Z) (st : Z * M) : option (Z * M) :=
  kernel c' i j k st.1 st.2.

(** The body of [for i in range(idx_start, idx_end)]. *)
Definition train_position (idx_start idx_end i : Z) (st : Z * M)
  : option (Z * M) :=
  rw ← zlookup (c_reduced_windows c') i;
  let j := i - c_window c' + rw in
  let j := if decide (j < idx_start) then idx_start else j in
  let k := i + c_window c' + 1 - rw in
  let k := if decide (k > idx_end) then idx_end else k in
  if decide (c_sg c' = 1) then
    for_each (range j k)
      (fun j st => if decide (j = i) then Some st else call i j (j + 1) st) st
  else call i j k st.

(** The body of [for sent_idx in range(effective_sentences)]. *)
Definition train_sentence (sent_idx : Z) (st : Z * M) : option (Z * M) :=
  idx_end ← zlookup (c_sentence_idx c') sent_idx;
  idx_start ← (if decide (sent_idx = 0) then Some 0
               else zlookup (c_sentence_idx c') (sent_idx - 1));
  for_each (range idx_start idx_end) (train_position idx_start idx_end) st.

Definition train_loops (n_sentences : Z) (st : Z * M) : option (Z * M) :=
  for_each (range 0 n_sentences) train_sentence st.
End Loops.

(** [train_batch]: the count it returns, and what the kernel mutated. *)
Definition train_batch {M} (kernel : Word2VecConfig REAL_t -> Z -> Z -> Z -> Z -> M -> option (Z * M))
    (indexes sentence_idx : list Z) (subsampling : bool) (mem : M)
  : option (Z * M) :=
  p ← prepare indexes sentence_idx subsampling;
  rw ← for_each (enumerate (randint 0 (c_window c) (effective_words p)))
       (fun '(i, item) b => zstore b i item) (c_reduced_windows c);
  let c' := config_of p rw in
  '(_, mem) ← train_loops kernel c' (effective_sentences p) (p_next_random p, mem);
  Some (effective_words p, mem).

(** A kernel that only records the positions it is called with. *)
Definition recorder (_ : Word2VecConfig REAL_t) (i j k : Z) (next_random : Z)
    (log : list (Z * Z * Z)) : option (Z * list (Z * Z * Z)) :=
  Some (next_random, log ++ [(i, j, k)]).
End Driver.

(** The two entry points. *)
Definition train_batch_fieldembed_0X1_neat {REAL_t} `{!RealOps REAL_t} `{!Blas REAL_t}
    (EXP_TABLE LOG_TABLE : list REAL_t) (c : Word2VecConfig REAL_t)
    (vlookup : list Z) (randint : Z -> Z -> Z -> list Z)
    (indexes sentence_idx : list Z) (subsampling : bool) (mem : Mem REAL_t) :=
  train_batch c vlookup randint
    (fieldembed_token_neg_0X1_neat EXP_TABLE LOG_TABLE)
    indexes sentence_idx subsampling mem.

Definition train_batch_fieldembed_negsamp {REAL_t} `{!RealOps REAL_t} `{!Blas REAL_t}
    (EXP_TABLE LOG_TABLE : list REAL_t) (c : Word2VecConfig REAL_t)
    (vlookup : list Z) (randint : Z -> Z -> Z -> list Z)
    (indexes sentence_idx : list Z) (subsampling : bool) (mem : Mem REAL_t) :=
  train_batch c vlookup randint
    (fieldembed_negsamp EXP_TABLE LOG_TABLE)
    indexes sentence_idx subsampling mem.

(** ** Two carriers *)

(** Exact rational arithmetic.  The results are kept in lowest terms, so
    that equal numbers are equal terms.  libm's [exp] and [log] are replaced
    by approximations to 24 fractional bits, computed in fixed point with
    36 fractional bits. *)
Module QReal.
Definition fix_of_Q (q : Q) : Z := Qnum q * 2 ^ 36 / Zpos (Qden q).

Definition Q_of_fix (z : Z) : Q :=
  Qred (Qmake ((Z.shiftr z 11 + 1) / 2) (Z.to_pos (2 ^ 24))).

(** The Taylor series of [exp], term after term. *)
Fixpoint exp_terms (n : nat) (x term k : Z) : Z :=
  match n with
  | O => 0
  | S n' => term + exp_terms n' x (Z.shiftr (term * x) 36 / (k + 1)) (k + 1)
  end.

Definition fix_exp (x : Z) : Z := exp_terms 40 x (2 ^ 36) 0.

(** Halley's iteration for the solution [t] of [exp t = y]. *)
Fixpoint log_iter (n : nat) (y t : Z) : Z :=
  match n with
  | O => t
  | S n' =>
      let e := fix_exp t in
      log_iter n' y (t + 2 * (y - e) * 2 ^ 36 / (y + e))
  end.

Definition q_exp (x : Q) : Q := Q_of_fix (fix_exp (fix_of_Q x)).
Definition q_log (y : Q) : Q := Q_of_fix (log_iter 8 (fix_of_Q y) 0).

(** [<int>]: truncation toward zero. *)
Definition q_trunc (q : Q) : Z := Z.quot (Qnum q) (Zpos (Qden q)).

Definition ops : RealOps Q :=
  {| of_int := inject_Z;
     real_half := Qmake 1 2;
     fadd := fun a b => Qred (Qplus a b);
     fsub := fun a b => Qred (Qminus a b);
     fmul := fun a b => Qred (Qmult a b);
     fdiv := fun a b => Qred (Qdiv a b);
     fneg := fun a => Qred (Qopp a);
     fle := Qle_bool;
     flt := fun a b => negb (Qle_bool b a);
     to_int := q_trunc;
     c_exp := q_exp;
     c_log := q_log |}.

Definition blas : Blas Q := @noblas Q ops.

(** The tables [init] builds in this carrier. *)
Definition tables : list Q * list Q := Eval vm_compute in @init Q ops.
Definition EXP_TABLE : list Q := Eval vm_compute in tables.1.
Definition LOG_TABLE : list Q := Eval vm_compute in tables.2.
End QReal.

(** The real numbers: arithmetic without rounding, and the true [exp] and
    [ln]. *)
Module RReal.
Definition r_trunc (x : R) : Z :=
  if Rle_dec 0 x then Int_part x else - Int_part (- x).

Definition ops : RealOps R :=
  {| of_int := IZR;
     real_half := (/ 2)%R;
     fadd := Rplus;
     fsub := Rminus;
     fmul := Rmult;
     fdiv := Rdiv;
     fneg := Ropp;
     fle := fun x y => if Rle_dec x y then true else false;
     flt := fun x y => if Rlt_dec x y then true else false;
     to_int := r_trunc;
     c_exp := exp;
     c_log := ln |}.

End RReal.

(** ** Where the two variants can be compared *)

Section Agreement.
Context {REAL_t : Type} `{!RealOps REAL_t} `{!Blas REAL_t}.
Variables EXP_TABLE LOG_TABLE : list REAL_t.
Variable c : Word2VecConfig REAL_t.




End Agreement.

(** ** Sample inputs

    A vocabulary of seven tokens, 0 to 3 reserved; tokens 4, 5 and 6 have one
    sub-unit each (0, 1 and 2); vectors of one element; both fields
    active. *)
Module Sample.
Definition q (z : Z) : Q := inject_Z z.

(** A work array of [MAX_SENTENCE_LEN] cells that starts with [l]. *)
Definition pad (l : list Z) : list Z :=
  l ++ replicate (Z.to_nat MAX_SENTENCE_LEN - length l) 0.

Definition config (sg compute_loss negative : Z) (indexes : list Z)
  : Word2VecConfig Q :=
  {| c_sg := sg; c_negative := negative; c_sample := false;
     c_cbow_mean := 1; c_window := 1; c_compute_loss := compute_loss;
     c_use_sub := 1; c_use_head := 1; c_use_hyper := 0;
     c_LookUp_map := {[ 0 := [0; 1; 2] ]};
     c_EndIdx_map := {[ 0 := [0; 0; 0; 0; 1; 2; 3] ]};
     c_LengInv_map := {[ 0 := q <$> [0; 0; 0; 0; 1; 1; 1] ]};
     c_word_locks := q <$> [1; 1; 1; 1; 1; 1; 1];
     c_alpha := Qmake 1 4; c_size := 1;
     c_cum_table := [0; 0; 0; 0; 10; 20; 30]; c_cum_table_len := 7;
     c_indexes := pad indexes;
     c_reduced_windows := pad [];
     c_sentence_idx := pad [];
     c_next_random := 25 * 65536 |}.

Definition rows (l : list Z) : list (list Q) := (fun z => [q z]) <$> l.

(** The sub-unit matrix, the head matrix, the output matrix; the scratch
    buffers hold leftovers. *)
Definition memory (sub head out : list Z) : Mem Q :=
  {| syn0_map := <[0 := rows sub]> {[ 1 := rows head ]};
     syn1neg := rows out;
     neu1 := rows [7; 7]; work := rows [7; 7];
     running_training_loss := q 0 |}.

Definition neat :=
  @fieldembed_token_neg_0X1_neat Q QReal.ops QReal.blas
    QReal.EXP_TABLE QReal.LOG_TABLE.
Definition negsamp :=
  @fieldembed_negsamp Q QReal.ops QReal.blas QReal.EXP_TABLE QReal.LOG_TABLE.

Definition train_neat :=
  @train_batch_fieldembed_0X1_neat Q QReal.ops QReal.blas
    QReal.EXP_TABLE QReal.LOG_TABLE.
Definition train_negsamp :=
  @train_batch_fieldembed_negsamp Q QReal.ops QReal.blas
    QReal.EXP_TABLE QReal.LOG_TABLE.

(** [randint] that always draws 0: no window shrinkage. *)
Definition randint0 (low high n : Z) : list Z := replicate (Z.to_nat n) 0.

(** The sentence 4 5 6, CBOW mode, no negative samples, loss off. *)
Definition cfg_cbow : Word2VecConfig Q := config 0 0 0 [4; 5; 6].
Definition mem_flat : Mem Q :=
  memory [0; 0; 0] [0; 0; 0; 0; 0; 0; 0] [0; 0; 0; 0; 1; 1; 1].

(** Sub-unit 1 (of token 5) has the vector 8. *)
Definition mem_steep : Mem Q :=
  memory [0; 8; 0] [0; 0; 0; 0; 0; 0; 0] [0; 0; 0; 0; 1; 1; 1].


(** Token 5 has the head vector 8, and its sub-unit the vector 1. *)
Definition mem_head_steep : Mem Q :=
  memory [0; 1; 0] [0; 0; 0; 0; 0; 8; 0] [0; 0; 0; 0; 1; 1; 1].

(** Row [r] of the sub-unit matrix, of the head matrix, of the output
    matrix. *)
Definition sub_row (mem : Mem Q) (r : Z) : option (list Q) :=
  m ← syn0_map mem !! 0; zlookup m r.
Definition head_row (mem : Mem Q) (r : Z) : option (list Q) :=
  m ← syn0_map mem !! 1; zlookup m r.
Definition out_row (mem : Mem Q) (r : Z) : option (list Q) :=
  zlookup (syn1neg mem) r.


(** The sentence 4 3 6: token 3 has no sub-unit. *)
Definition cfg_gap : Word2VecConfig Q := config 0 0 0 [4; 3; 6].

(** The sentence 0 5. *)
Definition cfg_zero : Word2VecConfig Q := config 0 0 0 [0; 5].
End Sample.

(* ================================================================== *)
(** * Properties *)

(** ** Bounds-checked arrays *)

Lemma zlookup_Some {A} (l : list A) i :
  0 <= i < Z.of_nat (length l) -> is_Some (zlookup l i).
Proof.
  intros [H0 H1]. unfold zlookup. rewrite decide_True by done.
  apply lookup_lt_is_Some. lia.
Qed.

Lemma zlookup_neg {A} (l : list A) i : i < 0 -> zlookup l i = None.
Proof. intros H. unfold zlookup. rewrite decide_False; [done | lia]. Qed.

Lemma zlookup_bound {A} (l : list A) i x :
  zlookup l i = Some x -> 0 <= i < Z.of_nat (length l).
Proof.
  unfold zlookup. case_decide; [|done]. intros H1%lookup_lt_Some. lia.
Qed.

(** ** [bisect_left] *)

Lemma shiftr1_mid lo hi :
  0 <= lo -> lo < hi -> hi < 2 ^ 63 ->
  let mid := Z.shiftr (wrap64 (lo + hi)) 1 in lo <= mid < hi.
Proof.
  intros H0 H1 H2. cbn zeta. unfold wrap64.
  rewrite Z.mod_small by lia. rewrite Z.shiftr_div_pow2 by lia.
  change (2 ^ 1) with 2. split.
  - apply Z.div_le_lower_bound; lia.
  - apply Z.div_lt_upper_bound; lia.
Qed.

(** Lower-bound semantics, with the loop invariant made explicit: everything
    left of [lo] is below [x], everything from [hi] on is at least [x]. *)
Lemma bisect_loop_spec (a : list Z) (x : Z) :
  sorted a ->
  forall fuel lo hi,
    0 <= lo -> lo <= hi -> hi <= Z.of_nat (length a) -> hi < 2 ^ 63 ->
    (Z.to_nat (hi - lo) <= fuel)%nat ->
    exists idx, bisect_loop fuel a x lo hi = Some idx /\ lo <= idx <= hi /\
      (forall j y, lo <= j < idx -> zlookup a j = Some y -> y < x) /\
      (forall j y, idx <= j < hi -> zlookup a j = Some y -> x <= y).
Proof.
  intros Hs. induction fuel as [|fuel IH]; intros lo hi H0 H1 H2 H3 Hf.
  - assert (hi = lo) by lia. subst hi. exists lo. cbn.
    rewrite decide_False by lia. repeat split; intros; lia.
  - cbn [bisect_loop]. case_decide as Hgt.
    + pose proof (shiftr1_mid lo hi H0 ltac:(lia) H3) as Hmid. cbn zeta in Hmid.
      set (mid := Z.shiftr (wrap64 (lo + hi)) 1) in *.
      assert (0 <= mid < Z.of_nat (length a)) as Hin by lia.
      destruct (zlookup_Some a mid Hin) as [v Hv]. rewrite Hv. cbn.
      case_decide as Hc.
      * destruct (IH lo mid) as (idx & -> & Hr & Hlt & Hge); try lia.
        exists idx. repeat split; try lia; [done|].
        intros j y Hj Hy. destruct (decide (j < mid)); [apply (Hge j y); [lia|done]|].
        pose proof (Hs mid j v y Hv Hy ltac:(lia)). lia.
      * assert (wrap64 (mid + 1) = mid + 1) as ->.
        { unfold wrap64. apply Z.mod_small. lia. }
        destruct (IH (mid + 1) hi) as (idx & -> & Hr & Hlt & Hge); try lia.
        exists idx. repeat split; try lia; [|done].
        intros j y Hj Hy. destruct (decide (mid + 1 <= j)); [apply (Hlt j y); [lia|done]|].
        pose proof (Hs j mid y v Hy Hv ltac:(lia)). lia.
    + exists lo. repeat split; intros; lia.
Qed.
(** ** Loops *)

Lemma for_each_app {A S} (l1 l2 : list A) (body : A -> S -> option S) s :
  for_each (l1 ++ l2) body s = s' ← for_each l1 body s; for_each l2 body s'.
Proof.
  revert s. induction l1 as [|x l1 IH]; intros s; cbn; [done|].
  destruct (body x s); cbn; [apply IH | done].
Qed.


(** A body that fails at some element makes the loop fail. *)
Lemma for_each_fails {A S} (l : list A) (body : A -> S -> option S) x s :
  x ∈ l -> (forall s, body x s = None) -> for_each l body s = None.
Proof.
  intros Hx Hb. revert s. induction l as [|y l IH]; intros s.
  - by apply elem_of_nil in Hx.
  - cbn. apply elem_of_cons in Hx as [->|Hx].
    + by rewrite Hb.
    + destruct (body y s); cbn; [by apply IH | done].
Qed.

(** An invariant of the body is an invariant of the loop. *)
Lemma for_each_inv {A S} (P : S -> Prop) (l : list A) (body : A -> S -> option S) s s' :
  (forall x s s', x ∈ l -> P s -> body x s = Some s' -> P s') ->
  P s -> for_each l body s = Some s' -> P s'.
Proof.
  revert s. induction l as [|x l IH]; intros s Hb Hs; cbn.
  - by intros [= <-].
  - destruct (body x s) as [s1|] eqn:E; cbn; [|done].
    apply IH; [|by eapply Hb; [left| |]].
    intros y t t' Hy. apply Hb. by right.
Qed.

Lemma elem_of_range a b m : m ∈ range a b <-> a <= m < b.
Proof. unfold range. rewrite elem_of_seqZ. lia. Qed.


Lemma range_nil a b : b <= a -> range a b = [].
Proof. intros H. unfold range. apply seqZ_nil. lia. Qed.

(** ** The generator *)

Lemma advance_mod (s : Z) : advance s = (s * 25214903917 + 11) mod 2 ^ 48.
Proof.
  unfold advance, wrap64.
  change 281474976710655 with (Z.ones 48).
  rewrite Z.land_ones by lia.
  apply Z.mod_mod_divide. exists (2 ^ 16). reflexivity.
Qed.

Lemma advance_range (s : Z) : 0 <= advance s < 2 ^ 48.
Proof. rewrite advance_mod. apply Z.mod_pos_bound. lia. Qed.


(** ** [bisect_left] *)

(** C5 (as amended): lower-bound semantics on a cumulative table, and what
    they give at the two ends of the range of [r]: for [r = 0] the result is
    index 0, and for [r = c_{N-1} - 1] it is [N - 1] exactly when the entry
    before the last is below [r]. *)
Theorem bisect_left_lower_bound (table : list Z) (r last : Z) :
  let N := Z.of_nat (length table) in
  sorted table ->
  (forall j v, zlookup table j = Some v -> 0 <= v) ->
  N < 2 ^ 63 ->
  zlookup table (N - 1) = Some last ->
  0 <= r < last ->
  exists idx v,
    bisect_left table r 0 N = Some idx /\
    zlookup table idx = Some v /\ r <= v /\
    (forall j w, 0 <= j < idx -> zlookup table j = Some w -> w < r) /\
    (r = 0 -> idx = 0) /\
    (r = last - 1 ->
     (idx = N - 1 <-> forall w, zlookup table (N - 2) = Some w -> w < last - 1)).
Proof.
  intros N Hs Hpos HN Hlast Hr.
  pose proof (zlookup_bound _ _ _ Hlast) as HN1.
  destruct (bisect_loop_spec table r Hs (Z.to_nat (N - 0)) 0 N)
    as (idx & Hb & Hi & Hlt & Hge); try lia.
  assert (idx < N) as HiN.
  { destruct (decide (idx < N)); [done|]. assert (idx = N) as -> by lia.
    specialize (Hlt (N - 1) last ltac:(lia) Hlast). lia. }
  destruct (zlookup_Some table idx ltac:(lia)) as [v Hv].
  exists idx, v. split; [exact Hb|]. split; [exact Hv|].
  split; [by apply (Hge idx v); [lia|]|].
  split; [exact Hlt|]. split.
  - intros ->. destruct (decide (idx = 0)); [done|].
    destruct (zlookup_Some table 0 ltac:(lia)) as [w Hw].
    specialize (Hlt 0 w ltac:(lia) Hw). specialize (Hpos 0 w Hw). lia.
  - intros ->. split.
    + intros -> w Hw. apply (Hlt (N - 2) w); [|done].
      pose proof (zlookup_bound _ _ _ Hw). lia.
    + intros Hw. destruct (decide (idx = N - 1)); [done|].
      destruct (zlookup_Some table (N - 2) ltac:(lia)) as [w Hw'].
      specialize (Hw w Hw').
      pose proof (Hs idx (N - 2) v w Hv Hw' ltac:(lia)).
      specialize (Hge idx v ltac:(lia) Hv). lia.
Qed.

(** A check of [sorted] for given tables. *)
Lemma sortedb_sorted (a : list Z) : sortedb a = true -> sorted a.
Proof.
  intros H.
  assert (forall (i j : nat) x y,
             a !! i = Some x -> a !! j = Some y -> (i <= j)%nat -> x <= y) as Hn.
  { induction a as [|z a IH]; [done|].
    assert (sortedb a = true /\ forall y, a !! 0%nat = Some y -> z <= y) as [Ha Hz].
    { destruct a as [|y a]; [done|]. cbn in H.
      apply andb_prop in H as [H1%bool_decide_eq_true H2].
      split; [done|]. by intros ? [= <-]. }
    specialize (IH Ha). intros [|i] [|j] x y Hi Hj Hij; cbn in Hi, Hj.
    - simplify_eq. lia.
    - simplify_eq. destruct (a !! 0%nat) as [w|] eqn:Ew.
      + specialize (Hz w eq_refl). specialize (IH 0%nat j w y Ew Hj ltac:(lia)). lia.
      + apply lookup_ge_None in Ew. apply lookup_lt_Some in Hj. lia.
    - lia.
    - apply (IH i j); [done..|lia]. }
  intros i j x y Hi Hj Hij. unfold zlookup in *.
  repeat case_decide; try done. apply (Hn _ _ _ _ Hi Hj). lia.
Qed.

(** Witness of C5's theorem: the table 3 5 9 and [r = 4]. *)
Lemma bisect_left_lower_bound_witness :
  exists idx v,
    bisect_left [3; 5; 9] 4 0 3 = Some idx /\
    zlookup [3; 5; 9] idx = Some v /\ 4 <= v /\
    (forall j w, 0 <= j < idx -> zlookup [3; 5; 9] j = Some w -> w < 4) /\
    (4 = 0 -> idx = 0) /\
    (4 = 9 - 1 ->
     (idx = 3 - 1 <-> forall w, zlookup [3; 5; 9] (3 - 2) = Some w -> w < 9 - 1)).
Proof.
  apply (bisect_left_lower_bound [3; 5; 9] 4 9).
  - by apply sortedb_sorted.
  - intros j v H. pose proof (zlookup_bound _ _ _ H) as Hb. cbn in Hb.
    assert (j = 0 \/ j = 1 \/ j = 2) as [->|[->| ->]] by lia;
      cbv in H; simplify_eq; lia.
  - cbn. lia.
  - reflexivity.
  - lia.
Defined.

(** C5 (as stated) fails at both ends.  In the table 1 2 the draw
    [r = c_{N-1} - 1 = 1] gives index 0, not [N - 1 = 1]; in the table 0 5
    the draw [r = 0] gives index 0, a bucket of width 0, while the first
    bucket of nonzero width is bucket 1. *)
Lemma bisect_left_ends_counterexample :
  (sorted [1; 2] /\ 0 <= 2 - 1 < 2 /\ bisect_left [1; 2] (2 - 1) 0 2 = Some 0 /\
   0 <> 2 - 1) /\
  (sorted [0; 5] /\ 0 <= 0 < 5 /\ bisect_left [0; 5] 0 0 2 = Some 0 /\
   zlookup [0; 5] 0 = Some 0 /\ zlookup [0; 5] 1 = Some 5).
Proof.
  split; (split; [by apply sortedb_sorted|]);
    repeat split; try reflexivity; try lia.
Qed.

(** ** The generator inside the kernels *)





(** Inversion of a successful sequence of steps. *)
Ltac bind_inv Hrun :=
  repeat match type of Hrun with
         | mbind _ ?m = Some _ =>
             let E := fresh "E" in
             destruct m eqn:E; cbn [mbind option_bind] in Hrun;
             [|discriminate Hrun]
         | (let '(_, _) := ?p in _) = Some _ => destruct p
         end.

Section KernelRandom.
Context {REAL_t : Type} `{!RealOps REAL_t} `{!Blas REAL_t}.
Variables EXP_TABLE LOG_TABLE : list REAL_t.
Variable c : Word2VecConfig REAL_t.








End KernelRandom.



(** ** The sigmoid tables *)


Lemma zlookup_fmap_range_None {A} (f : Z -> A) (n i : Z) :
  n <= i -> zlookup (f <$> range 0 n) i = None.
Proof.
  intros Hi. unfold zlookup, range. case_decide; [|done].
  rewrite list_lookup_fmap, lookup_seqZ_ge by lia. done.
Qed.






(** ** Sub-unit slices *)

Section Slices.
Context {REAL_t : Type} `{!RealOps REAL_t} `{!Blas REAL_t}.
Variables EXP_TABLE LOG_TABLE : list REAL_t.
Variable c : Word2VecConfig REAL_t.

Lemma slice_bounds_inside fld EndIdx t :
  c_EndIdx_map c !! fld = Some EndIdx ->
  1 <= t < Z.of_nat (length EndIdx) ->
  exists gs ge,
    zlookup EndIdx (t - 1) = Some gs /\ zlookup EndIdx t = Some ge /\
    slice_bounds c fld t = Some (to_int32 gs, to_int32 ge).
Proof.
  intros HE Ht. unfold slice_bounds. rewrite HE. cbn.
  destruct (zlookup_Some EndIdx (t - 1)) as [gs Hgs]; [lia|].
  destruct (zlookup_Some EndIdx t) as [ge Hge]; [lia|].
  exists gs, ge. by rewrite Hgs, Hge.
Qed.

Lemma slice_bounds_zero fld : slice_bounds c fld 0 = None.
Proof.
  unfold slice_bounds. destruct (c_EndIdx_map c !! fld) as [EndIdx|]; [|done].
  cbn [mbind option_bind]. by rewrite (zlookup_neg EndIdx (0 - 1)) by lia.
Qed.

(** The aggregation and the scatter fail on a context token 0. *)
Lemma project_sub_token_zero fld m mem :
  zlookup (c_indexes c) m = Some 0 -> project_sub_token c fld m mem = None.
Proof.
  intros Hm. unfold project_sub_token. rewrite Hm. cbn.
  change (to_int32 0) with 0. rewrite slice_bounds_zero.
  destruct (c_LengInv_map c !! fld) as [L|]; [|done]. cbn.
  by destruct (zlookup L 0).
Qed.

Lemma scatter_sub_token_zero fld m mem :
  zlookup (c_indexes c) m = Some 0 -> scatter_sub_token c fld m mem = None.
Proof.
  intros Hm. unfold scatter_sub_token. rewrite Hm. cbn.
  change (to_int32 0) with 0. rewrite slice_bounds_zero.
  destruct (c_LengInv_map c !! fld) as [L|]; [|done]. cbn.
  by destruct (zlookup L 0).
Qed.

Lemma for_context_fails {S} i j k (body : Z -> S -> option S) m s :
  j <= m < k -> m <> i -> (forall s, body m s = None) ->
  for_context i j k body s = None.
Proof.
  intros Hm Hi Hb. unfold for_context. apply for_each_fails with m.
  - by apply elem_of_range.
  - intros s'. by rewrite decide_False.
Qed.

Lemma project_zero_token i j k m inv_count mem :
  c_use_sub c <> 0 -> j <= m < k -> m <> i ->
  zlookup (c_indexes c) m = Some 0 ->
  project c i j k inv_count mem = None.
Proof.
  intros Hsub Hm Hi H0. unfold project.
  destruct (memset_zero c (neu1 mem)) as [b|]; [|done]. cbn.
  rewrite decide_True by done.
  rewrite (for_context_fails i j k _ m); [done..|].
  intros s. by apply project_sub_token_zero.
Qed.

Lemma neat_zero_token i j k m next_random mem :
  c_use_sub c <> 0 -> j <= m < k -> m <> i ->
  zlookup (c_indexes c) m = Some 0 ->
  fieldembed_token_neg_0X1_neat EXP_TABLE LOG_TABLE c i j k next_random mem = None.
Proof.
  intros Hsub Hm Hi H0. unfold fieldembed_token_neg_0X1_neat.
  destruct (zlookup (c_indexes c) i); [|done]. cbn.
  by rewrite (project_zero_token i j k m).
Qed.

Lemma negsamp_zero_token i j k m next_random mem :
  c_use_sub c <> 0 -> j <= m < k -> m <> i ->
  zlookup (c_indexes c) m = Some 0 ->
  fieldembed_negsamp EXP_TABLE LOG_TABLE c i j k next_random mem = None.
Proof.
  intros Hsub Hm Hi H0. unfold fieldembed_negsamp.
  destruct (zlookup (c_indexes c) i); [|done]. cbn.
  by rewrite (project_zero_token i j k m).
Qed.

(** C9: a context token whose sub-unit slice is empty leaves [neu1], and
    all the rest of the memory, as it is: it adds nothing to the
    projection.  Its [LengInv] entry is read, and the result does not depend
    on the value read: no operation is applied to it. *)
Theorem empty_slice_adds_nothing (fld m w e : Z) (lenginv : REAL_t)
    (EndIdx : list Z) (LengInv : list REAL_t) (mem : Mem REAL_t) :
  zlookup (c_indexes c) m = Some w ->
  c_LengInv_map c !! fld = Some LengInv ->
  zlookup LengInv (to_int32 w) = Some lenginv ->
  c_EndIdx_map c !! fld = Some EndIdx ->
  zlookup EndIdx (to_int32 w - 1) = Some e ->
  zlookup EndIdx (to_int32 w) = Some e ->
  project_sub_token c fld m mem = Some mem.
Proof.
  intros Hw HL Hl HE H1 H2. unfold project_sub_token, slice_bounds.
  rewrite Hw. cbn. rewrite HL. cbn. rewrite Hl. cbn. rewrite HE. cbn.
  rewrite H1. cbn. rewrite H2. cbn.
  by rewrite range_nil by lia.
Qed.
End Slices.

(** Witness of C9's theorem: token 3 in the sentence 4 3 6. *)
Lemma empty_slice_adds_nothing_witness :
  project_sub_token (REAL_t := Q) (Blas0 := QReal.blas) Sample.cfg_gap 0 1 Sample.mem_flat
  = Some Sample.mem_flat.
Proof.
  apply (empty_slice_adds_nothing (REAL_t := Q) Sample.cfg_gap 0 1 3 0 (Sample.q 0)
           [0; 0; 0; 0; 1; 2; 3] (Sample.q <$> [0; 0; 0; 0; 1; 1; 1]));
    reflexivity.
Defined.

(** ** Stores *)

Lemma zstore_Some {A} (l : list A) i v l' :
  zstore l i v = Some l' ->
  0 <= i < Z.of_nat (length l) /\ l' = <[Z.to_nat i := v]> l.
Proof. unfold zstore. case_decide; [|done]. by intros [= <-]. Qed.

Lemma zstore_length {A} (l : list A) i v l' :
  zstore l i v = Some l' -> length l' = length l.
Proof. intros [_ ->]%zstore_Some. apply length_insert. Qed.

Lemma zlookup_zstore_eq {A} (l : list A) i v l' :
  zstore l i v = Some l' -> zlookup l' i = Some v.
Proof.
  intros [Hi ->]%zstore_Some. unfold zlookup. rewrite decide_True by lia.
  apply list_lookup_insert_eq. lia.
Qed.

Lemma zlookup_zstore_ne {A} (l : list A) i j v l' :
  zstore l i v = Some l' -> i <> j -> zlookup l' j = zlookup l j.
Proof.
  intros [Hi ->]%zstore_Some Hne. unfold zlookup. case_decide; [|done].
  apply list_lookup_insert_ne. lia.
Qed.

Lemma zstore_outside {A} (l : list A) i v :
  Z.of_nat (length l) <= i -> zstore l i v = None.
Proof. intros H. unfold zstore. rewrite decide_False; [done|lia]. Qed.

(** ** [enumerate] and Python slices *)

Lemma elem_of_enumerate {A} (l : list A) i x :
  (i, x) ∈ enumerate l <-> zlookup l i = Some x.
Proof.
  unfold enumerate, zlookup. rewrite list_elem_of_lookup. split.
  - intros [n Hn]. apply lookup_zip_with_Some in Hn as (i' & x' & [= <- <-] & Hi & Hx).
    apply lookup_seqZ in Hi as [-> Hn]. rewrite decide_True by lia.
    by replace (Z.to_nat (0 + Z.of_nat n)) with n by lia.
  - case_decide; [|done]. intros Hx. exists (Z.to_nat i).
    apply lookup_zip_with_Some. exists i, x. split; [done|]. split; [|done].
    apply lookup_seqZ. apply lookup_lt_Some in Hx. lia.
Qed.

Lemma enumerate_snoc {A} (l : list A) x :
  enumerate (l ++ [x]) = enumerate l ++ [(Z.of_nat (length l), x)].
Proof.
  unfold enumerate. rewrite length_app. cbn [length].
  replace (Z.of_nat (length l + 1)) with (Z.of_nat (length l) + 1) by lia.
  rewrite seqZ_app by lia. cbn.
  rewrite zip_with_app by (by rewrite length_seqZ, Nat2Z.id). done.
Qed.

Lemma elem_of_py_slice {A} (l : list A) a b x : x ∈ py_slice l a b -> x ∈ l.
Proof.
  unfold py_slice. intros H.
  eapply elem_of_sublist; [exact H|].
  etrans; [apply sublist_take | apply sublist_drop].
Qed.

(** ** The two ways to fill the work arrays *)

(** Copying a sequence cell by cell: the copy holds the sequence, and the
    loop fails when the sequence is longer than the array. *)
Lemma copy_loop_spec {A} (body : Z * A -> list A -> option (list A)) (l : list A) :
  (forall i x b b', body (i, x) b = Some b' -> zstore b i x = Some b') ->
  forall b b',
    for_each (enumerate l) body b = Some b' ->
    (length l <= length b)%nat /\ length b' = length b /\
    (forall i x, zlookup l i = Some x -> zlookup b' i = Some x) /\
    (forall i, Z.of_nat (length l) <= i -> zlookup b' i = zlookup b i).
Proof.
  intros Hbody. induction l as [|x l IH] using rev_ind; intros b b'.
  - cbn. intros [= <-]. split; [lia|]. split; [done|]. split; [|done].
    intros i x Hx. unfold zlookup in Hx. by case_decide.
  - rewrite enumerate_snoc, for_each_app.
    destruct (for_each (enumerate l) body b) as [b1|] eqn:E1; [|done].
    cbn [mbind option_bind for_each].
    destruct (body (Z.of_nat (length l), x) b1) as [b2|] eqn:E2; [|done].
    cbn. intros [= <-]. apply Hbody in E2.
    destruct (IH b b1 E1) as (Hlen & Hl1 & Hcopy & Hrest).
    pose proof (zstore_Some _ _ _ _ E2) as [Hin _].
    rewrite length_app. cbn [length]. split; [lia|].
    split; [by rewrite (zstore_length _ _ _ _ E2)|]. split.
    + intros i y Hy. destruct (decide (i = Z.of_nat (length l))) as [->|Hne].
      * rewrite (zlookup_zstore_eq _ _ _ _ E2). unfold zlookup in Hy.
        rewrite decide_True, Nat2Z.id in Hy by lia.
        by rewrite lookup_app_r, Nat.sub_diag in Hy by lia.
      * rewrite (zlookup_zstore_ne _ _ _ _ _ E2) by done. apply Hcopy.
        pose proof (zlookup_bound _ _ _ Hy) as Hb.
        rewrite length_app in Hb. cbn in Hb.
        unfold zlookup in *. case_decide; [|done].
        by rewrite lookup_app_l in Hy by lia.
    + intros i Hi. rewrite (zlookup_zstore_ne _ _ _ _ _ E2) by lia.
      apply Hrest. lia.
Qed.

Section Prepare.
Context {REAL_t : Type}.
Variable c : Word2VecConfig REAL_t.
Variable vlookup : list Z.

Lemma pack_words_ok indexes ws st st' :
  (forall w, w ∈ ws -> w ∈ indexes) ->
  packed_ok indexes st -> pack_words c vlookup ws st = Some st' ->
  packed_ok indexes st'.
Proof.
  revert st. induction ws as [|w ws IH]; intros st Hin Hok; cbn [pack_words].
  - by intros [= <-].
  - assert (forall w, w ∈ ws -> w ∈ indexes) as Hin' by (intros; apply Hin; by right).
    case_decide as Hw; [by apply IH|].
    intros Hrun. bind_inv Hrun. destruct b.
    + revert Hrun. apply IH; [done|].
      destruct Hok as (H1 & H2 & H3 & H4). done.
    + cbn [p_indexes effective_words p_sentence_idx effective_sentences p_next_random] in Hrun.
      bind_inv Hrun.
      assert (packed_ok indexes
                {| p_indexes := l; p_sentence_idx := p_sentence_idx st;
                   effective_words := effective_words st + 1;
                   effective_sentences := effective_sentences st;
                   p_next_random := z |}) as Hok'.
      { destruct Hok as (H1 & H2 & H3 & H4). repeat split; cbn; try lia.
        - intros pos Hpos. destruct (decide (pos = effective_words st)) as [->|Hne].
          + exists w. rewrite (zlookup_zstore_eq _ _ _ _ E0).
            split; [done|]. split; [lia|]. apply Hin. by left.
          + rewrite (zlookup_zstore_ne _ _ _ _ _ E0) by done. apply H3. lia.
        - intros s Hs. destruct (H4 s Hs) as (e & He & Hle). exists e.
          split; [done|lia]. }
      case_decide; [by injection Hrun as <-|].
      revert Hrun. by apply IH.
Qed.

Lemma pack_sentences_ok indexes sentence_idx ids st st' :
  packed_ok indexes st ->
  pack_sentences c vlookup indexes sentence_idx ids st = Some st' ->
  packed_ok indexes st'.
Proof.
  revert st. induction ids as [|s ids IH]; intros st Hok; cbn [pack_sentences].
  - by intros [= <-].
  - intros Hrun. bind_inv Hrun.
    cbn [p_indexes effective_words p_sentence_idx effective_sentences p_next_random] in Hrun.
    eapply pack_words_ok in E1; [|by intros w Hw%elem_of_py_slice|done].
    assert (packed_ok indexes
              {| p_indexes := p_indexes p; p_sentence_idx := l;
                 effective_words := effective_words p;
                 effective_sentences := effective_sentences p + 1;
                 p_next_random := p_next_random p |}) as Hok'.
    { destruct E1 as (H1 & H2 & H3 & H4). repeat split; cbn; try lia; [done|].
      intros s' Hs'. destruct (decide (s' = effective_sentences p)) as [->|Hne].
      - exists (effective_words p). rewrite (zlookup_zstore_eq _ _ _ _ E2).
        split; [done|lia].
      - rewrite (zlookup_zstore_ne _ _ _ _ _ E2) by done. apply H4. lia. }
    case_decide; [by injection Hrun as <-|].
    revert Hrun. by apply IH.
Qed.

Lemma prepare_subsampling_ok indexes sentence_idx p :
  prepare c vlookup indexes sentence_idx true = Some p -> packed_ok indexes p.
Proof.
  unfold prepare. apply pack_sentences_ok.
  repeat split; cbn; try lia; intros; lia.
Qed.

Lemma prepare_verbatim indexes sentence_idx p :
  prepare c vlookup indexes sentence_idx false = Some p ->
  effective_words p = Z.of_nat (length indexes) /\
  effective_sentences p = Z.of_nat (length sentence_idx) /\
  (length indexes <= length (c_indexes c))%nat /\
  (length sentence_idx <= length (c_sentence_idx c))%nat /\
  (forall pos w, zlookup indexes pos = Some w -> zlookup (p_indexes p) pos = Some w) /\
  (forall s e, zlookup sentence_idx s = Some e -> zlookup (p_sentence_idx p) s = Some e).
Proof.
  unfold prepare, copy_verbatim. intros Hrun. bind_inv Hrun.
  injection Hrun as <-. cbn.
  apply copy_loop_spec in E as (H1 & _ & H2 & _).
  2:{ intros i x b b'. case_decide; [done|discriminate]. }
  apply copy_loop_spec in E0 as (H3 & _ & H4 & _); [|done].
  done.
Qed.
End Prepare.

(** ** The positions the training loops use *)

Section Calls.
Context {REAL_t : Type}.
Variable c' : Word2VecConfig REAL_t.

Lemma within_weaken lo hi lo' hi' call :
  lo' <= lo -> hi <= hi' -> within lo hi call -> within lo' hi' call.
Proof. destruct call as [[i j] k]. cbn. lia. Qed.

Lemma grows_within_refl lo hi nr log : grows_within lo hi log (nr, log).
Proof. exists []. by rewrite app_nil_r. Qed.

Lemma grows_within_trans lo hi log st1 st2 :
  grows_within lo hi log st1 -> grows_within lo hi st1.2 st2 ->
  grows_within lo hi log st2.
Proof.
  intros (n1 & H1 & F1) (n2 & H2 & F2). exists (n1 ++ n2).
  rewrite H2, H1, app_assoc. split; [done|]. by apply Forall_app.
Qed.

Lemma train_position_calls idx_start idx_end i st st' :
  idx_start <= i < idx_end ->
  train_position recorder c' idx_start idx_end i st = Some st' ->
  grows_within idx_start idx_end st.2 st'.
Proof.
  intros Hi. unfold train_position. intros Hrun. bind_inv Hrun.
  set (j := if decide (i - c_window c' + z < idx_start) then idx_start
            else i - c_window c' + z) in *.
  set (k := if decide (i + c_window c' + 1 - z > idx_end) then idx_end
            else i + c_window c' + 1 - z) in *.
  assert (idx_start <= j) as Hj
    by (unfold j; destruct (decide (i - c_window c' + z < idx_start)); lia).
  assert (k <= idx_end) as Hk
    by (unfold k; destruct (decide (i + c_window c' + 1 - z > idx_end)); lia).
  case_decide.
  - revert Hrun. apply for_each_inv with (P := grows_within idx_start idx_end st.2).
    + intros m s s' Hm%elem_of_range Hs. case_decide; [by intros [= <-]|].
      unfold call, recorder. intros [= <-]. eapply grows_within_trans; [done|].
      exists [(i, m, m + 1)]. split; [done|]. apply Forall_singleton. cbn. lia.
    + destruct st. apply grows_within_refl.
  - unfold call, recorder in Hrun. injection Hrun as <-.
    exists [(i, j, k)]. split; [done|]. apply Forall_singleton. cbn. lia.
Qed.

Lemma train_sentence_calls ew s st st' :
  (forall s', s' = s \/ s' = s - 1 -> 0 <= s' ->
     forall e, zlookup (c_sentence_idx c') s' = Some e -> 0 <= e <= ew) ->
  0 <= s ->
  train_sentence recorder c' s st = Some st' ->
  grows_within 0 ew st.2 st'.
Proof.
  intros Hidx Hs. unfold train_sentence. intros Hrun. bind_inv Hrun.
  rename z into idx_end, z0 into idx_start.
  assert (0 <= idx_end <= ew) by (apply (Hidx s); auto).
  assert (0 <= idx_start <= ew).
  { revert E0. case_decide; [intros [= <-]; lia|]. apply (Hidx (s - 1)); auto; lia. }
  revert Hrun. apply for_each_inv with (P := grows_within 0 ew st.2).
  - intros i t t' Hi%elem_of_range Ht Hp.
    apply train_position_calls in Hp; [|done].
    eapply grows_within_trans; [done|].
    destruct Hp as (new & Hn & Hf). exists new. split; [done|].
    eapply Forall_impl; [done|]. intros call. apply within_weaken; lia.
  - destruct st. apply grows_within_refl.
Qed.

Lemma train_loops_calls ew n st st' :
  (forall s e, 0 <= s < n -> zlookup (c_sentence_idx c') s = Some e -> 0 <= e <= ew) ->
  train_loops recorder c' n st = Some st' ->
  grows_within 0 ew st.2 st'.
Proof.
  intros Hidx. unfold train_loops.
  apply for_each_inv with (P := grows_within 0 ew st.2).
  - intros s t t' Hs%elem_of_range Ht Hp.
    apply train_sentence_calls with (ew := ew) in Hp; [|..|lia].
    + by eapply grows_within_trans.
    + intros s' Hs' H0 e. apply Hidx. lia.
  - destruct st. apply grows_within_refl.
Qed.
End Calls.

(** C3 (as amended): in subsampling mode the packed cells hold input tokens
    above 3 only, and every position the training loops hand to the kernel
    as target or context is a packed cell, so that no token 0 to 3 is used
    in training; in no-subsampling mode the input tokens are copied as they
    are. *)
Theorem reserved_tokens_by_mode {REAL_t : Type} (c : Word2VecConfig REAL_t)
    (vlookup indexes sentence_idx : list Z) :
  (forall p,
      prepare c vlookup indexes sentence_idx true = Some p ->
      (forall pos, 0 <= pos < effective_words p ->
         exists w, zlookup (p_indexes p) pos = Some w /\ 3 < w /\ w ∈ indexes) /\
      (forall rw next_random st' i j k m,
         train_loops recorder (config_of c p rw) (effective_sentences p)
                     (next_random, []) = Some st' ->
         (i, j, k) ∈ st'.2 -> m = i \/ j <= m < k ->
         exists w, zlookup (p_indexes p) m = Some w /\ 3 < w)) /\
  (forall p,
      prepare c vlookup indexes sentence_idx false = Some p ->
      forall pos w, zlookup indexes pos = Some w ->
                    zlookup (p_indexes p) pos = Some w).
Proof.
  split.
  - intros p Hp. apply prepare_subsampling_ok in Hp.
    destruct Hp as (H1 & H2 & H3 & H4). split; [done|].
    intros rw nr st' i j k m Hrun Hcall Hm.
    apply train_loops_calls with (ew := effective_words p) in Hrun.
    + destruct Hrun as (new & Hnew & Hall). cbn in Hnew. rewrite Hnew in Hcall.
      rewrite Forall_forall in Hall. apply Hall in Hcall. cbn in Hcall.
      destruct (H3 m) as (w & Hw & Hw3 & _); [lia|]. by exists w.
    + cbn. intros s e Hs He. destruct (H4 s Hs) as (e' & He' & Hle). congruence.
  - intros p Hp pos w Hw. by eapply prepare_verbatim.
Qed.

(** Witness of C3's theorem: the sentence 1 4 2 5 6 in subsampling mode. *)
Lemma reserved_tokens_by_mode_witness :
  exists p,
    prepare Sample.cfg_cbow [] [1; 4; 2; 5; 6] [5] true = Some p /\
    forall pos, 0 <= pos < effective_words p ->
      exists w, zlookup (p_indexes p) pos = Some w /\ 3 < w /\ w ∈ [1; 4; 2; 5; 6].
Proof.
  destruct (prepare Sample.cfg_cbow [] [1; 4; 2; 5; 6] [5] true) as [p|] eqn:E.
  - exists p. split; [done|].
    apply (reserved_tokens_by_mode Sample.cfg_cbow [] [1; 4; 2; 5; 6] [5]).
    exact E.
  - vm_compute in E. discriminate E.
Defined.

(** C3 (as stated) fails in no-subsampling mode: of the sentence 0 5 the
    token 0 is packed at position 0, is the target of the first call of the
    kernel and a context token of the second. *)
Lemma nosub_keeps_reserved_counterexample :
  (p ← prepare Sample.cfg_zero [] [0; 5] [2] false; zlookup (p_indexes p) 0)
    = Some 0 /\
  train_batch Sample.cfg_zero [] Sample.randint0 recorder [0; 5] [2] false []
    = Some (2, [(0, 0, 2); (1, 0, 2)]).
Proof. split; vm_compute; reflexivity. Qed.

(** The copy loop of the no-subsampling branch has no bound of its own: an
    input longer than the index array is written past its end. *)
Lemma prepare_verbatim_overflow {REAL_t : Type} (c : Word2VecConfig REAL_t)
    (vlookup indexes sentence_idx : list Z) :
  (length (c_indexes c) < length indexes)%nat ->
  prepare c vlookup indexes sentence_idx false = None.
Proof.
  intros Hlen.
  destruct (prepare c vlookup indexes sentence_idx false) as [p|] eqn:E; [|done].
  apply prepare_verbatim in E as (_ & _ & Hle & _). lia.
Qed.

Lemma train_batch_prepare_fails {REAL_t M : Type} (c : Word2VecConfig REAL_t)
    (vlookup : list Z) (randint : Z -> Z -> Z -> list Z)
    (kernel : Word2VecConfig REAL_t -> Z -> Z -> Z -> Z -> M -> option (Z * M))
    (indexes sentence_idx : list Z) (subsampling : bool) (mem : M) :
  prepare c vlookup indexes sentence_idx subsampling = None ->
  train_batch c vlookup randint kernel indexes sentence_idx subsampling mem = None.
Proof. intros Hp. unfold train_batch. by rewrite Hp. Qed.

(** C4, at the failing input: 10001 tokens in no-subsampling mode.  The
    index array has 10000 cells; the copy loop writes past its end, and
    neither entry point completes. *)
Lemma nosub_overflows_indexes :
  let indexes := replicate (Z.to_nat (MAX_SENTENCE_LEN + 1)) 4 in
  length (c_indexes Sample.cfg_cbow) = Z.to_nat MAX_SENTENCE_LEN /\
  prepare Sample.cfg_cbow [] indexes [MAX_SENTENCE_LEN + 1] false = None /\
  Sample.train_neat Sample.cfg_cbow [] Sample.randint0 indexes
    [MAX_SENTENCE_LEN + 1] false Sample.mem_flat = None /\
  Sample.train_negsamp Sample.cfg_cbow [] Sample.randint0 indexes
    [MAX_SENTENCE_LEN + 1] false Sample.mem_flat = None.
Proof.
  intros indexes.
  assert (length (c_indexes Sample.cfg_cbow) = Z.to_nat MAX_SENTENCE_LEN) as Hcap
    by (vm_compute; reflexivity).
  assert (prepare Sample.cfg_cbow [] indexes [MAX_SENTENCE_LEN + 1] false = None) as Hp.
  { apply prepare_verbatim_overflow. rewrite Hcap. unfold indexes.
    rewrite length_replicate. unfold MAX_SENTENCE_LEN. lia. }
  split; [exact Hcap|]. split; [exact Hp|].
  split; apply train_batch_prepare_fails; exact Hp.
Qed.

(** C10: the slice of a context token [t] is read at [EndIdx[t - 1]] and
    [EndIdx[t]]; both reads are inside the table for [1 <= t], the first one
    is at index -1 for [t = 0], and then the update does not complete; a
    token 0 gets there in no-subsampling mode, which copies it as it is. *)
Theorem EndIdx_reads_by_token {REAL_t : Type} `{!RealOps REAL_t} `{!Blas REAL_t}
    (EXP_TABLE LOG_TABLE : list REAL_t) (c : Word2VecConfig REAL_t)
    (vlookup indexes sentence_idx EndIdx : list Z) :
  c_EndIdx_map c !! 0 = Some EndIdx ->
  (forall t, 1 <= t < Z.of_nat (length EndIdx) ->
     exists gs ge,
       zlookup EndIdx (t - 1) = Some gs /\ zlookup EndIdx t = Some ge /\
       slice_bounds c 0 t = Some (to_int32 gs, to_int32 ge)) /\
  (0 - 1 = -1 /\ zlookup EndIdx (0 - 1) = None /\ slice_bounds c 0 0 = None) /\
  (forall m mem,
     zlookup (c_indexes c) m = Some 0 ->
     project_sub_token c 0 m mem = None /\ scatter_sub_token c 0 m mem = None) /\
  (forall p rw pos i j k next_random mem,
     prepare c vlookup indexes sentence_idx false = Some p ->
     zlookup indexes pos = Some 0 ->
     c_use_sub c <> 0 -> j <= pos < k -> pos <> i ->
     fieldembed_token_neg_0X1_neat EXP_TABLE LOG_TABLE (config_of c p rw)
       i j k next_random mem = None /\
     fieldembed_negsamp EXP_TABLE LOG_TABLE (config_of c p rw)
       i j k next_random mem = None).
Proof.
  intros HE. split; [|split; [|split]].
  - intros t Ht. by apply slice_bounds_inside.
  - split; [done|]. split; [by apply zlookup_neg|apply slice_bounds_zero].
  - intros m mem Hm. split;
      [by apply project_sub_token_zero | by apply scatter_sub_token_zero].
  - intros p rw pos i j k nr mem Hp H0 Hsub Hpos Hi.
    apply prepare_verbatim in Hp as (_ & _ & _ & _ & Hcopy & _).
    specialize (Hcopy pos 0 H0).
    split; [apply neat_zero_token with pos | apply negsamp_zero_token with pos];
      done.
Qed.

(** Witness of C10's theorem: the sentence 0 5 in no-subsampling mode; the
    call for target position 1 has position 0 in its window. *)
Lemma EndIdx_reads_by_token_witness :
  exists p,
    prepare Sample.cfg_zero [] [0; 5] [2] false = Some p /\
    Sample.negsamp (config_of Sample.cfg_zero p (Sample.pad [])) 1 0 2 0
      Sample.mem_flat = None.
Proof.
  destruct (prepare Sample.cfg_zero [] [0; 5] [2] false) as [p|] eqn:E.
  - exists p. split; [done|].
    pose proof (proj2 (proj2 (proj2
             (EndIdx_reads_by_token (RealOps0 := QReal.ops) (Blas0 := QReal.blas)
                QReal.EXP_TABLE QReal.LOG_TABLE
                Sample.cfg_zero [] [0; 5] [2] [0; 0; 0; 0; 1; 2; 3] eq_refl)))
             p (Sample.pad []) 0 1 0 2 0 Sample.mem_flat E eq_refl) as Hcall.
    destruct Hcall as [_ Hcall]; [cbn; lia | lia | lia | exact Hcall].
  - vm_compute in E. discriminate E.
Defined.

(** ** The two variants side by side *)

Section Variants.
Context {REAL_t : Type} `{!RealOps REAL_t} `{!Blas REAL_t}.
Variables EXP_TABLE LOG_TABLE : list REAL_t.
Variable c : Word2VecConfig REAL_t.



Lemma neat_update_syn1neg_no_head t a b b' mem :
  c_use_head c = 0 ->
  neat_update_syn1neg c t a b mem = neat_update_syn1neg c t a b' mem.
Proof.
  intros Hh. unfold neat_update_syn1neg.
  destruct (if decide (c_use_sub c <> 0) then _ else _); [|done].
  cbn. by rewrite !decide_False by lia.
Qed.






End Variants.


(** ** The variants on the sample inputs *)



(** C1, at the failing inputs: the context is token 5, the target token 4
    with the output row 1.  (a) The sub projection is 8 and saturates, the
    head projection is 0 and does not: [fieldembed_token_neg_0X1_neat]
    skips the whole step, so that nothing is accumulated for the head field
    either, and [fieldembed_negsamp] does not complete.  (b) The head
    projection is 8 and saturates, the sub projection is 1 and does not:
    both variants accumulate the sub field's gradient in [work] and leave
    the output row as it was. *)
Lemma saturation_skips_other_fields :
  (exists mem',
      Sample.neat Sample.cfg_cbow 0 1 2 0 Sample.mem_steep = Some (0, mem') /\
      neu1 mem' = Sample.rows [8; 0] /\
      @saturated Q QReal.ops (Sample.q 8) = true /\
      @saturated Q QReal.ops (Sample.q 0) = false /\
      work mem' = Sample.rows [0; 0] /\
      syn1neg mem' = syn1neg Sample.mem_steep /\
      syn0_map mem' = syn0_map Sample.mem_steep) /\
  Sample.negsamp Sample.cfg_cbow 0 1 2 0 Sample.mem_steep = None /\
  (exists mem',
      Sample.neat Sample.cfg_cbow 0 1 2 0 Sample.mem_head_steep = Some (0, mem') /\
      Sample.negsamp Sample.cfg_cbow 0 1 2 0 Sample.mem_head_steep = Some (0, mem') /\
      neu1 mem' = Sample.rows [1; 8] /\
      @saturated Q QReal.ops (Sample.q 1) = false /\
      work mem' = [[Qmake 4194304 61123183]; [Sample.q 0]] /\
      Sample.out_row mem' 4 = Sample.out_row Sample.mem_head_steep 4).
Proof.
  split; [|split].
  - eexists. split; [vm_compute; reflexivity|].
    repeat split; vm_compute; reflexivity.
  - vm_compute. reflexivity.
  - eexists. split; [vm_compute; reflexivity|].
    repeat split; vm_compute; reflexivity.
Qed.

(** C8, at the failing input: a CBOW call of [fieldembed_negsamp] for the
    sentence 4 5 6 with target position 1.  The context tokens are 4 and 6
    and the target is token 5; the call changes the head row of token 5 and
    the row of its sub-unit, and leaves the rows of the context token 4 as
    they were.  [fieldembed_token_neg_0X1_neat] changes the rows of token 4
    and leaves those of token 5. *)
Lemma negsamp_updates_target_rows :
  (exists mem',
      Sample.negsamp Sample.cfg_cbow 1 0 3 0 Sample.mem_flat = Some (0, mem') /\
      Sample.head_row Sample.mem_flat 5 = Some [Sample.q 0] /\
      Sample.head_row mem' 5 = Some [Qmake 524288 8289143] /\
      Sample.sub_row Sample.mem_flat 1 = Some [Sample.q 0] /\
      Sample.sub_row mem' 1 = Some [Qmake 524288 8289143] /\
      Sample.head_row mem' 4 = Sample.head_row Sample.mem_flat 4 /\
      Sample.sub_row mem' 0 = Sample.sub_row Sample.mem_flat 0) /\
  (exists mem',
      Sample.neat Sample.cfg_cbow 1 0 3 0 Sample.mem_flat = Some (0, mem') /\
      Sample.head_row mem' 5 = Sample.head_row Sample.mem_flat 5 /\
      Sample.sub_row mem' 1 = Sample.sub_row Sample.mem_flat 1 /\
      Sample.head_row mem' 4 = Some [Qmake 524288 8289143] /\
      Sample.sub_row mem' 0 = Some [Qmake 524288 8289143]).
Proof.
  split.
  - eexists. split; [vm_compute; reflexivity|].
    repeat split; vm_compute; reflexivity.
  - eexists. split; [vm_compute; reflexivity|].
    repeat split; vm_compute; reflexivity.
Qed.
